(** * llvmcalltest.cpp: the identity-function builder of Julia's llvmcall tests

    [MakeIdentityFunction] is thirteen lines of C++ that drive the LLVM IR
    construction API.  The development has three layers:

    - [Module llvm]: the part of the LLVM object model that those lines
      touch (uniqued types, the context, modules, functions, basic blocks,
      the instruction builder), as an explicit store with a fault monad;
    - [MakeIdentityFunction]: the source function, call by call;
    - the properties of the function it builds.  *)

From stdpp Require Import base option list gmap strings stringmap.

Module llvm.

(** ** Types

    LLVM types live in the context and are uniqued there: asking twice for
    the same type returns the same object.  The context's type arena is a
    list that only grows; a [Type*] is an index into it. *)

Definition TypeRef := nat.

Inductive llvm_Type : Type :=
  | VoidTy
  | LabelTy
  | MetadataTy
  | TokenTy
  | FloatTy
  | DoubleTy
  | IntegerTy (NumBits : N)
  | PointerTy (PointeeTy : TypeRef) (AddressSpace : N)
  | ArrayTy (ContainedTy : TypeRef) (NumElements : N)
  | StructTy (ContainedTys : list TypeRef)
  | FunctionTy (ReturnType : TypeRef) (Params : list TypeRef) (isVarArg : bool).

#[global] Instance llvm_Type_eq_dec : EqDecision llvm_Type.
Proof. solve_decision. Defined.

(** [PointerType::isValidElementType] *)
Definition isValidElementType (t : llvm_Type) : bool :=
  match t with
  | VoidTy | LabelTy | MetadataTy | TokenTy => false
  | _ => true
  end.

(** [FunctionType::isValidReturnType] *)
Definition isValidReturnType (t : llvm_Type) : bool :=
  match t with
  | FunctionTy _ _ _ | LabelTy | MetadataTy => false
  | _ => true
  end.

(** [FunctionType::isValidArgumentType], that is [Type::isFirstClassType] *)
Definition isValidArgumentType (t : llvm_Type) : bool :=
  match t with
  | FunctionTy _ _ _ | VoidTy => false
  | _ => true
  end.

(** ** Values, instructions and the objects that hold them

    Modules, functions and basic blocks are heap objects, named by their
    address.  Arguments are stored inside their function and instructions
    inside their block. *)

Inductive LinkageTypes : Set :=
  | ExternalLinkage
  | AvailableExternallyLinkage
  | LinkOnceAnyLinkage
  | LinkOnceODRLinkage
  | WeakAnyLinkage
  | WeakODRLinkage
  | AppendingLinkage
  | InternalLinkage
  | PrivateLinkage
  | ExternalWeakLinkage
  | CommonLinkage.

Inductive Value : Set :=
  | ArgumentVal (F : positive) (ArgNo : nat)
  | BasicBlockVal (BB : positive)
  | FunctionVal (F : positive).

Inductive Instruction : Set :=
  | ReturnInst (retVal : option Value)
  | UnreachableInst.

Record Argument : Set := mkArgument {
  ArgTy : TypeRef;
  ArgNo : nat;
  ArgName : string
}.

Record llvm_Module : Type := mkModule {
  ModuleID : string;
  FunctionList : list positive;
  ValSymTab : stringmap Value
}.

Record llvm_Function : Type := mkFunction {
  FName : string;
  FTy : TypeRef;
  Linkage : LinkageTypes;
  FParent : option positive;
  Arguments : list Argument;
  BasicBlocks : list positive;
  SymTab : stringmap Value
}.

Record llvm_BasicBlock : Type := mkBasicBlock {
  BBName : string;
  BBParent : option positive;
  InstList : list Instruction
}.

(** ** The context and the store *)

Record LLVMContext : Type := mkContext {
  constructed : bool;            (* the object's lifetime has begun *)
  Types : list llvm_Type;        (* the uniqued types it owns *)
  OwnedModules : gset positive   (* the modules instantiated in it *)
}.

Record State : Type := mkState {
  TheContext : LLVMContext;                 (* the global [jl_LLVMContext] *)
  Modules : gmap positive llvm_Module;
  Functions : gmap positive llvm_Function;
  Blocks : gmap positive llvm_BasicBlock
}.

(** A reference to a context.  The program has one context object, the
    global declared at line 12. *)
Inductive LLVMContextRef : Set := jl_LLVMContext.

(** ** Faults

    None of the calls returns an error code.  What can go wrong is undefined
    behaviour (a null or dangling pointer, an object used before its
    construction, an end iterator dereferenced, a wrong downcast) or an LLVM
    assertion, which aborts the process.  The assertions are modelled as
    they are in a build that has them enabled. *)

Inductive Fault : Set :=
  | NullDereference
  | DanglingPointer
  | ContextNotConstructed
  | BadCast
  | EndIteratorDereference
  | AssertionFailed (message : string).

Inductive Outcome (A : Type) : Type :=
  | Returns (a : A) (st : State)
  | Fails (e : Fault).
Arguments Returns {A} a st.
Arguments Fails {A} e.

Definition Op (A : Type) : Type := State → Outcome A.

Definition ret {A} (a : A) : Op A := λ st, Returns a st.

Definition bind {A B} (c : Op A) (k : A → Op B) : Op B :=
  λ st, match c st with
        | Returns a st' => k a st'
        | Fails e => Fails e
        end.

Definition fail {A} (e : Fault) : Op A := λ _, Fails e.

Definition get : Op State := λ st, Returns st st.

Definition assert (b : bool) (message : string) : Op unit :=
  if b then ret tt else fail (AssertionFailed message).

Notation "'let*' x ':=' c 'in' k" := (bind c (λ x, k))
  (at level 10, x name, c at level 100, k at level 200, only parsing).

(** Reading through a pointer. *)

Definition the_context (C : LLVMContextRef) : Op LLVMContext :=
  λ st, if constructed (TheContext st)
        then Returns (TheContext st) st
        else Fails ContextNotConstructed.

Definition set_context (C : LLVMContext) : Op unit :=
  λ st, Returns tt (mkState C (Modules st) (Functions st) (Blocks st)).

Definition load_Type (T : TypeRef) : Op llvm_Type :=
  λ st, match Types (TheContext st) !! T with
        | Some t => Returns t st
        | None => Fails DanglingPointer
        end.

Definition load_Module (m : positive) : Op llvm_Module :=
  λ st, match Modules st !! m with
        | Some o => Returns o st
        | None => Fails DanglingPointer
        end.

Definition load_Function (f : positive) : Op llvm_Function :=
  λ st, match Functions st !! f with
        | Some o => Returns o st
        | None => Fails DanglingPointer
        end.

Definition load_BasicBlock (b : positive) : Op llvm_BasicBlock :=
  λ st, match Blocks st !! b with
        | Some o => Returns o st
        | None => Fails DanglingPointer
        end.

Definition store_Module (m : positive) (o : llvm_Module) : Op unit :=
  λ st, Returns tt
          (mkState (TheContext st) (<[m:=o]> (Modules st)) (Functions st) (Blocks st)).

Definition store_Function (f : positive) (o : llvm_Function) : Op unit :=
  λ st, Returns tt
          (mkState (TheContext st) (Modules st) (<[f:=o]> (Functions st)) (Blocks st)).

Definition store_BasicBlock (b : positive) (o : llvm_BasicBlock) : Op unit :=
  λ st, Returns tt
          (mkState (TheContext st) (Modules st) (Functions st) (<[b:=o]> (Blocks st))).

(** ** Type uniquing

    [uniqued t C] is the lookup-or-create step shared by the [get] functions
    of the type classes: the existing object when the context already has
    [t], a new object at the end of the arena otherwise. *)

Definition find_Type (t : llvm_Type) (ts : list llvm_Type) : option TypeRef :=
  fst <$> list_find (λ u, u = t) ts.

Definition uniqued (t : llvm_Type) (C : LLVMContext) : TypeRef * LLVMContext :=
  match find_Type t (Types C) with
  | Some T => (T, C)
  | None => (length (Types C),
             mkContext (constructed C) (Types C ++ [t]) (OwnedModules C))
  end.

Definition get_uniqued (t : llvm_Type) : Op TypeRef :=
  let* C := the_context jl_LLVMContext in
  let '(T, C') := uniqued t C in
  let* _ := set_context C' in
  ret T.

(** [Type *PointerType::getElementType() const], called through a
    [PointerType *] that may be null. *)
Definition PointerType_getElementType (this : option TypeRef) : Op TypeRef :=
  match this with
  | None => fail NullDereference
  | Some P =>
      let* t := load_Type P in
      match t with
      | PointerTy PointeeTy _ => ret PointeeTy
      | _ => fail BadCast
      end
  end.

(** [static PointerType *PointerType::get(Type *ElementType, unsigned AddressSpace)] *)
Definition PointerType_get (ElementType : TypeRef) (AddressSpace : N) : Op TypeRef :=
  let* e := load_Type ElementType in
  let* _ := assert (isValidElementType e) "Invalid type for pointer element!" in
  get_uniqued (PointerTy ElementType AddressSpace).

(** The body of the [FunctionType] constructor: its assertions on the result
    and on every parameter. *)
Fixpoint check_Params (Params : list TypeRef) : Op unit :=
  match Params with
  | [] => ret tt
  | P :: rest =>
      let* p := load_Type P in
      let* _ := assert (isValidArgumentType p) "Not a valid type for function argument!" in
      check_Params rest
  end.

(** [static FunctionType *FunctionType::get(Type *Result, ArrayRef<Type*> Params, bool isVarArg)] *)
Definition FunctionType_get (Result : TypeRef) (Params : list TypeRef) (isVarArg : bool)
  : Op TypeRef :=
  let* C := the_context jl_LLVMContext in
  match find_Type (FunctionTy Result Params isVarArg) (Types C) with
  | Some FT => ret FT
  | None =>
      let* r := load_Type Result in
      let* _ := assert (isValidReturnType r) "invalid return type for function" in
      let* _ := check_Params Params in
      get_uniqued (FunctionTy Result Params isVarArg)
  end.

(** ** Symbol tables

    A module and a function each keep a [ValueSymbolTable].  A value with an
    empty name is not entered.  A name that is already taken is replaced by
    an unused one built from it.  The context keeps the names of values,
    which is LLVM's default. *)

Definition enter_name (N : string) (V : Value) (tab : stringmap Value)
  : string * stringmap Value :=
  if decide (N = "") then ("", tab)
  else let n := fresh_string N tab in (n, <[n:=V]> tab).

(** ** Modules, functions, blocks *)

(** [new Module(StringRef ModuleID, LLVMContext &C)].  The constructor ends
    with [Context.addModule(this)], which enters the module in the set of
    modules instantiated in the context. *)
Definition Module_new (ModuleID : string) (C : LLVMContextRef) : Op positive :=
  let* ctx := the_context C in
  let* st := get in
  let m := fresh (dom (Modules st)) in
  let* _ := store_Module m (mkModule ModuleID [] ∅) in
  let* _ := set_context
              (mkContext (constructed ctx) (Types ctx) ({[m]} ∪ OwnedModules ctx)) in
  ret m.

(** The arguments of a new function: one per parameter type, unnamed. *)
Definition new_Arguments (Params : list TypeRef) : list Argument :=
  imap (λ i T, mkArgument T i "") Params.

(** [static Function *Function::Create(FunctionType *Ty, LinkageTypes Linkage,
    const Twine &N, Module *M)].  A function is a global value, and the type
    of a global value is the pointer to its value type: the constructor of
    [GlobalValue] first asks for [PointerType::get(Ty, 0)], which uniques
    that pointer type in the context.  With a module, the function is
    appended to the module's function list and named in the module's symbol
    table. *)
Definition Function_Create (Ty : TypeRef) (Linkage : LinkageTypes) (N : string)
    (M : option positive) : Op positive :=
  let* ft := load_Type Ty in
  match ft with
  | FunctionTy Result Params _ =>
      let* _ := PointerType_get Ty 0 in
      let* r := load_Type Result in
      let* _ := assert (isValidReturnType r) "invalid return type" in
      let* st := get in
      let F := fresh (dom (Functions st)) in
      match M with
      | None =>
          let* _ := store_Function F
                      (mkFunction N Ty Linkage None (new_Arguments Params) [] ∅) in
          ret F
      | Some m =>
          let* mo := load_Module m in
          let '(name, tab) := enter_name N (FunctionVal F) (ValSymTab mo) in
          let* _ := store_Function F
                      (mkFunction name Ty Linkage (Some m) (new_Arguments Params) [] ∅) in
          let* _ := store_Module m
                      (mkModule (ModuleID mo) (FunctionList mo ++ [F]) tab) in
          ret F
      end
  | _ => fail BadCast
  end.

(** [static BasicBlock *BasicBlock::Create(LLVMContext &Context, const Twine &Name,
    Function *Parent, BasicBlock *InsertBefore = nullptr)], with the default
    [InsertBefore]: the block goes to the end of the parent's block list. *)
Definition BasicBlock_Create (Context : LLVMContextRef) (Name : string)
    (Parent : option positive) : Op positive :=
  let* _ := the_context Context in
  let* st := get in
  let b := fresh (dom (Blocks st)) in
  match Parent with
  | None =>
      let* _ := store_BasicBlock b (mkBasicBlock Name None []) in
      ret b
  | Some f =>
      let* fo := load_Function f in
      let '(name, tab) := enter_name Name (BasicBlockVal b) (SymTab fo) in
      let* _ := store_BasicBlock b (mkBasicBlock name (Some f) []) in
      let* _ := store_Function f
                  (mkFunction (FName fo) (FTy fo) (Linkage fo) (FParent fo)
                              (Arguments fo) (BasicBlocks fo ++ [b]) tab) in
      ret b
  end.

(** [Function::arg_begin()] and the dereference of the iterator it returns.
    An iterator is a function and a position in its argument list. *)
Definition Function_arg_begin (F : positive) : Op (positive * nat) :=
  let* _ := load_Function F in
  ret (F, 0).

Definition arg_iterator_deref (it : positive * nat) : Op Value :=
  let* fo := load_Function it.1 in
  match Arguments fo !! it.2 with
  | Some _ => ret (ArgumentVal it.1 it.2)
  | None => fail EndIteratorDereference
  end.

(** ** The instruction builder

    [IRBuilder<> Builder(BasicBlock *TheBB)] sets the insertion point to the
    end of [TheBB]; every instruction created through the builder is appended
    there. *)

Record IRBuilder : Set := mkIRBuilder { BB : positive }.

Definition IRBuilder_new (TheBB : positive) : Op IRBuilder :=
  let* _ := load_BasicBlock TheBB in
  ret (mkIRBuilder TheBB).

(** [ReturnInst *IRBuilder::CreateRet(Value *V)]; a null [V] gives [ret void]. *)
Definition IRBuilder_CreateRet (Builder : IRBuilder) (V : option Value) : Op Instruction :=
  let I := ReturnInst V in
  let* bo := load_BasicBlock (BB Builder) in
  let* _ := store_BasicBlock (BB Builder)
              (mkBasicBlock (BBName bo) (BBParent bo) (InstList bo ++ [I])) in
  ret I.

End llvm.

Import llvm.

(** * The source function *)

Section llvmcalltest.

(** [AddressSpace::Tracked] comes from codegen_shared.h, which is not among
    the sources: the number of the address space is a parameter. *)
Variable Tracked : N.

(** [llvm::Function *MakeIdentityFunction(llvm::PointerType *AnyTy)],
    lines 16 to 31. *)
Definition MakeIdentityFunction (AnyTy : option TypeRef) : Op (option positive) :=
  let* ElementType := PointerType_getElementType AnyTy in
  let* TrackedTy := PointerType_get ElementType Tracked in
  let* M := Module_new "shadow" jl_LLVMContext in
  let* FT := FunctionType_get TrackedTy [TrackedTy] false in
  let* F := Function_Create FT ExternalLinkage "identity" (Some M) in
  let* top := BasicBlock_Create jl_LLVMContext "top" (Some F) in
  let* Builder := IRBuilder_new top in
  let* it := Function_arg_begin F in
  let* arg := arg_iterator_deref it in
  let* _ := IRBuilder_CreateRet Builder (Some arg) in
  ret (Some F).

End llvmcalltest.

(** * Vocabulary of the properties *)

(** The input contract: the pointer is not null, it points to a pointer type
    of the context, and the pointee [T] of that type is a type of the
    context that LLVM accepts as a pointer element. *)
Definition valid_descriptor (st : State) (AnyTy : option TypeRef) (T : TypeRef) : Prop :=
  ∃ P AS e,
    AnyTy = Some P ∧
    Types (TheContext st) !! P = Some (PointerTy T AS) ∧
    Types (TheContext st) !! T = Some e ∧
    isValidElementType e = true.

(** What asking for a type adds to the types of a context: the type itself
    when the context does not hold it yet, nothing when it does. *)
Definition missing (t : llvm_Type) (ts : list llvm_Type) : list llvm_Type :=
  if decide (t ∈ ts) then [] else [t].

(** Two descriptors are equivalent when they denote the same pointer type. *)
Definition equivalent_descriptors (st : State) (A1 A2 : option TypeRef) : Prop :=
  ∃ P1 P2 t,
    A1 = Some P1 ∧ A2 = Some P2 ∧
    Types (TheContext st) !! P1 = Some t ∧
    Types (TheContext st) !! P2 = Some t.

(** The structure of a function, without the addresses of its parts: name,
    linkage, type, arguments, and for every block its name and its
    instructions, where an operand that is an argument of the function itself
    is known by its position. *)
Inductive InstructionShape : Set :=
  | ReturnOfArgument (ArgNo : nat)
  | ReturnOfOther (V : Value)
  | ReturnVoid
  | Unreachable.

Definition Instruction_shape (F : positive) (I : Instruction) : InstructionShape :=
  match I with
  | ReturnInst (Some (ArgumentVal F' n)) =>
      if decide (F' = F) then ReturnOfArgument n else ReturnOfOther (ArgumentVal F' n)
  | ReturnInst (Some V) => ReturnOfOther V
  | ReturnInst None => ReturnVoid
  | UnreachableInst => Unreachable
  end.

Definition BasicBlock_shape (st : State) (F b : positive)
  : option (string * list InstructionShape) :=
  bo ← Blocks st !! b;
  Some (BBName bo, Instruction_shape F <$> InstList bo).

Definition Function_shape (st : State) (F : positive)
  : option (string * LinkageTypes * TypeRef * list Argument *
            list (string * list InstructionShape)) :=
  fo ← Functions st !! F;
  bs ← mapM (BasicBlock_shape st F) (BasicBlocks fo);
  Some (FName fo, Linkage fo, FTy fo, Arguments fo, bs).

(** The module that hosts a function. *)
Definition Function_getParent (st : State) (F : positive) : option positive :=
  fo ← Functions st !! F; FParent fo.

(** Two small stores to run the function in.  The context of [store0] holds
    [i32] and [i32*]; the context of [store1] also holds [i32 addrspace(10)*].
    Neither has any module yet. *)
Definition store0 : State :=
  mkState (mkContext true [IntegerTy 32; PointerTy 0 0] ∅) ∅ ∅ ∅.
Definition store1 : State :=
  mkState (mkContext true [IntegerTy 32; PointerTy 0 0; PointerTy 0 10] ∅) ∅ ∅ ∅.

(** ** Calls in a row, consistency of the store, running a function *)

(** The builder called once per descriptor of a list, in order, each call in
    the store the call before it left; the functions come back in the same
    order. *)
Fixpoint MakeIdentityFunctions (Tracked : N) (AnyTys : list (option TypeRef))
  : Op (list (option positive)) :=
  match AnyTys with
  | [] => ret []
  | AnyTy :: rest =>
      let* F := MakeIdentityFunction Tracked AnyTy in
      let* Fs := MakeIdentityFunctions Tracked rest in
      ret (F :: Fs)
  end.

(** The links between the objects of a store agree in both directions, and
    nothing points outside the store: the context's module set is the set of
    modules; a function names the module that lists it, a block the function
    that lists it; a module's symbol table names functions of the module by
    their names; a function's type is a function type over the types of its
    arguments; an argument that is returned is an argument of the function
    the block belongs to. *)
Record consistent (st : State) : Prop := mkConsistent {
  owned_modules : ∀ m,
    m ∈ OwnedModules (TheContext st) ↔ is_Some (Modules st !! m);
  function_parent : ∀ f fo m,
    Functions st !! f = Some fo → FParent fo = Some m →
    ∃ mo, Modules st !! m = Some mo ∧ f ∈ FunctionList mo;
  module_functions : ∀ m mo f,
    Modules st !! m = Some mo → f ∈ FunctionList mo →
    ∃ fo, Functions st !! f = Some fo ∧ FParent fo = Some m;
  module_symbols : ∀ m mo N V,
    Modules st !! m = Some mo → ValSymTab mo !! N = Some V →
    ∃ f fo, V = FunctionVal f ∧ f ∈ FunctionList mo ∧
            Functions st !! f = Some fo ∧ FName fo = N;
  block_parent : ∀ b bo f,
    Blocks st !! b = Some bo → BBParent bo = Some f →
    ∃ fo, Functions st !! f = Some fo ∧ b ∈ BasicBlocks fo;
  function_blocks : ∀ f fo b,
    Functions st !! f = Some fo → b ∈ BasicBlocks fo →
    ∃ bo, Blocks st !! b = Some bo ∧ BBParent bo = Some f;
  function_type : ∀ f fo,
    Functions st !! f = Some fo →
    ∃ Result isVarArg,
      Types (TheContext st) !! FTy fo =
        Some (FunctionTy Result (ArgTy <$> Arguments fo) isVarArg);
  returned_arguments : ∀ b bo f n,
    Blocks st !! b = Some bo →
    ReturnInst (Some (ArgumentVal f n)) ∈ InstList bo →
    BBParent bo = Some f ∧
    ∃ fo, Functions st !! f = Some fo ∧ is_Some (Arguments fo !! n)
}.

(** Running a function of the store on actual arguments, for the
    instructions above.  Control enters the first block of the function; a
    [ret] ends the call with the value of its operand, or with no value; an
    [unreachable], or a block with no instruction, has no behaviour.  Of the
    values, only the arguments of the running function have a meaning here. *)
Definition eval_Value (F : positive) (actuals : list Z) (V : Value) : option Z :=
  match V with
  | ArgumentVal F' n => if decide (F' = F) then actuals !! n else None
  | BasicBlockVal _ | FunctionVal _ => None
  end.

Definition exec_InstList (F : positive) (actuals : list Z) (insts : list Instruction)
  : option (option Z) :=
  match insts with
  | ReturnInst None :: _ => Some None
  | ReturnInst (Some V) :: _ => Some <$> eval_Value F actuals V
  | UnreachableInst :: _ => None
  | [] => None
  end.

Definition call_Function (st : State) (F : positive) (actuals : list Z)
  : option (option Z) :=
  fo ← Functions st !! F;
  if decide (length actuals = length (Arguments fo)) then
    entry ← head (BasicBlocks fo);
    bo ← Blocks st !! entry;
    exec_InstList F actuals (InstList bo)
  else None.

(** * Facts about the library model *)

Section run.

Lemma bind_Returns {A B} (c : Op A) (k : A → Op B) st a st' :
  c st = Returns a st' → bind c k st = k a st'.
Proof. unfold bind. by intros ->. Qed.

Lemma bind_inv {A B} (c : Op A) (k : A → Op B) st b st' :
  bind c k st = Returns b st' →
  ∃ a st1, c st = Returns a st1 ∧ k a st1 = Returns b st'.
Proof. unfold bind. destruct (c st) as [a st1|]; [eauto|done]. Qed.

Lemma lookup_insert_fresh {A} (m : gmap positive A) i x :
  is_Some (m !! i) → <[fresh (dom m) := x]> m !! i = m !! i.
Proof.
  intros Hi. apply lookup_insert_ne. intros <-.
  by apply (is_fresh (dom m)), elem_of_dom.
Qed.

(** Uniquing. *)

Lemma find_Type_Some t ts T : find_Type t ts = Some T → ts !! T = Some t.
Proof.
  unfold find_Type. intros ([i u] & Hf & ->)%fmap_Some.
  apply list_find_Some in Hf as (Hl & -> & _). done.
Qed.

Lemma find_Type_app t ts l T :
  find_Type t ts = Some T → find_Type t (ts ++ l) = Some T.
Proof.
  unfold find_Type. intros ([i u] & Hf & ->)%fmap_Some.
  apply fmap_Some. exists (i, u). split; [by apply list_find_app_l|done].
Qed.

Lemma find_Type_snoc t ts :
  find_Type t ts = None → find_Type t (ts ++ [t]) = Some (length ts).
Proof.
  unfold find_Type. intros Hn%fmap_None.
  rewrite list_find_app_r by done. simpl.
  rewrite decide_True by done. done.
Qed.

Lemma uniqued_lookup t C : Types (uniqued t C).2 !! (uniqued t C).1 = Some t.
Proof.
  unfold uniqued. destruct (find_Type t (Types C)) as [T|] eqn:Hf; simpl.
  - eauto using find_Type_Some.
  - by rewrite list_lookup_middle.
Qed.

Lemma uniqued_Types t C :
  Types (uniqued t C).2 =
  Types C ++ match find_Type t (Types C) with Some _ => [] | None => [t] end.
Proof.
  unfold uniqued. destruct (find_Type t (Types C)); simpl; [|done].
  by rewrite app_nil_r.
Qed.

Lemma find_Type_None t ts : find_Type t ts = None ↔ t ∉ ts.
Proof.
  unfold find_Type. rewrite fmap_None, list_find_None, Forall_forall. split.
  - intros H Hin. by apply (H t).
  - intros H u Hin ->. done.
Qed.

Lemma uniqued_Types_missing t C :
  Types (uniqued t C).2 = Types C ++ missing t (Types C).
Proof.
  rewrite uniqued_Types. unfold missing.
  destruct (find_Type t (Types C)) as [T|] eqn:Hf.
  - rewrite decide_True; [done|]. eapply list_elem_of_lookup_2, find_Type_Some, Hf.
  - rewrite decide_False; [done|]. by apply find_Type_None.
Qed.

Lemma uniqued_constructed t C : constructed (uniqued t C).2 = constructed C.
Proof. unfold uniqued. by destruct (find_Type t (Types C)). Qed.

Lemma uniqued_OwnedModules t C : OwnedModules (uniqued t C).2 = OwnedModules C.
Proof. unfold uniqued. by destruct (find_Type t (Types C)). Qed.

Lemma uniqued_keeps t C T u :
  Types C !! T = Some u → Types (uniqued t C).2 !! T = Some u.
Proof. rewrite uniqued_Types. apply lookup_app_l_Some. Qed.

Lemma uniqued_find t C l :
  find_Type t (Types (uniqued t C).2 ++ l) = Some (uniqued t C).1.
Proof.
  apply find_Type_app. unfold uniqued.
  destruct (find_Type t (Types C)) as [T|] eqn:Hf; simpl; [done|].
  by apply find_Type_snoc.
Qed.

Lemma uniqued_found t C T : find_Type t (Types C) = Some T → uniqued t C = (T, C).
Proof. unfold uniqued. by intros ->. Qed.

Lemma Function_shape_single st F name FT L P args top tab bname bparent n :
  Functions st !! F = Some (mkFunction name FT L P args [top] tab) →
  Blocks st !! top =
    Some (mkBasicBlock bname bparent [ReturnInst (Some (ArgumentVal F n))]) →
  Function_shape st F = Some (name, L, FT, args, [(bname, [ReturnOfArgument n])]).
Proof.
  intros HF Hb. unfold Function_shape. rewrite HF. simpl.
  unfold BasicBlock_shape. rewrite Hb. simpl. by rewrite decide_True.
Qed.

(** What each call of the API returns when its preconditions hold. *)

Lemma load_Type_run st T t :
  Types (TheContext st) !! T = Some t → load_Type T st = Returns t st.
Proof. unfold load_Type. by intros ->. Qed.

Lemma get_uniqued_run st t :
  constructed (TheContext st) = true →
  get_uniqued t st =
  Returns (uniqued t (TheContext st)).1
          (mkState (uniqued t (TheContext st)).2 (Modules st) (Functions st) (Blocks st)).
Proof.
  intros Hc. unfold get_uniqued, bind, the_context. rewrite Hc.
  by destruct (uniqued t (TheContext st)).
Qed.

Lemma PointerType_getElementType_run st P T AS :
  Types (TheContext st) !! P = Some (PointerTy T AS) →
  PointerType_getElementType (Some P) st = Returns T st.
Proof.
  intros HP. unfold PointerType_getElementType.
  by rewrite (bind_Returns _ _ _ _ _ (load_Type_run _ _ _ HP)).
Qed.

Lemma PointerType_get_run st T e AS :
  constructed (TheContext st) = true →
  Types (TheContext st) !! T = Some e →
  isValidElementType e = true →
  PointerType_get T AS st =
  Returns (uniqued (PointerTy T AS) (TheContext st)).1
          (mkState (uniqued (PointerTy T AS) (TheContext st)).2
                   (Modules st) (Functions st) (Blocks st)).
Proof.
  intros Hc HT He. unfold PointerType_get.
  rewrite (bind_Returns _ _ _ _ _ (load_Type_run _ _ _ HT)), He.
  by apply get_uniqued_run.
Qed.

Lemma Module_new_run st ID :
  constructed (TheContext st) = true →
  Module_new ID jl_LLVMContext st =
  Returns (fresh (dom (Modules st)))
          (mkState (mkContext true (Types (TheContext st))
                              ({[fresh (dom (Modules st))]} ∪ OwnedModules (TheContext st)))
                   (<[fresh (dom (Modules st)) := mkModule ID [] ∅]> (Modules st))
                   (Functions st) (Blocks st)).
Proof.
  intros Hc. unfold Module_new, bind, the_context. rewrite Hc. simpl.
  by rewrite Hc.
Qed.

Lemma check_Params_run st Ps :
  Forall (λ P, ∃ p, Types (TheContext st) !! P = Some p ∧ isValidArgumentType p = true) Ps →
  check_Params Ps st = Returns tt st.
Proof.
  induction 1 as [|P Ps (p & HP & Hp) _ IH]; [done|]. simpl.
  by rewrite (bind_Returns _ _ _ _ _ (load_Type_run _ _ _ HP)), Hp.
Qed.

Lemma FunctionType_get_run st R r Ps va :
  constructed (TheContext st) = true →
  Types (TheContext st) !! R = Some r →
  isValidReturnType r = true →
  Forall (λ P, ∃ p, Types (TheContext st) !! P = Some p ∧ isValidArgumentType p = true) Ps →
  FunctionType_get R Ps va st =
  Returns (uniqued (FunctionTy R Ps va) (TheContext st)).1
          (mkState (uniqued (FunctionTy R Ps va) (TheContext st)).2
                   (Modules st) (Functions st) (Blocks st)).
Proof.
  intros Hc HR Hr HPs. unfold FunctionType_get.
  assert (the_context jl_LLVMContext st = Returns (TheContext st) st) as Hctx
    by (unfold the_context; by rewrite Hc).
  rewrite (bind_Returns _ _ _ _ _ Hctx).
  destruct (find_Type (FunctionTy R Ps va) (Types (TheContext st))) as [FT|] eqn:Hf.
  - unfold uniqued. rewrite Hf. simpl. by destruct st.
  - rewrite (bind_Returns _ _ _ _ _ (load_Type_run _ _ _ HR)), Hr.
    unfold assert. rewrite (bind_Returns _ _ st tt st) by done.
    rewrite (bind_Returns _ _ _ _ _ (check_Params_run _ _ HPs)).
    by apply get_uniqued_run.
Qed.

Lemma enter_name_empty N V :
  N ≠ "" → enter_name N V ∅ = (N, {[N := V]}).
Proof.
  intros HN. unfold enter_name. rewrite decide_False by done.
  unfold fresh_string. rewrite lookup_empty. by rewrite insert_empty.
Qed.

Lemma Function_Create_run st Ty R Ps va r L N m mo :
  constructed (TheContext st) = true →
  Types (TheContext st) !! Ty = Some (FunctionTy R Ps va) →
  Types (TheContext st) !! R = Some r →
  isValidReturnType r = true →
  Modules st !! m = Some mo →
  let F := fresh (dom (Functions st)) in
  let nt := enter_name N (FunctionVal F) (ValSymTab mo) in
  Function_Create Ty L N (Some m) st =
  Returns F
    (mkState (uniqued (PointerTy Ty 0) (TheContext st)).2
       (<[m := mkModule (ModuleID mo) (FunctionList mo ++ [F]) nt.2]> (Modules st))
       (<[F := mkFunction nt.1 Ty L (Some m) (new_Arguments Ps) [] ∅]> (Functions st))
       (Blocks st)).
Proof.
  intros Hc HTy HR Hr Hm F nt. unfold Function_Create.
  rewrite (bind_Returns _ _ _ _ _ (load_Type_run _ _ _ HTy)).
  rewrite (bind_Returns _ _ _ _ _ (PointerType_get_run _ _ _ 0 Hc HTy eq_refl)).
  erewrite bind_Returns;
    [|apply load_Type_run; cbn [TheContext]; by apply uniqued_keeps].
  rewrite Hr.
  unfold bind, load_Module. simpl. rewrite Hm.
  fold F. fold nt. by destruct nt.
Qed.

Lemma BasicBlock_Create_run st Name f fo :
  constructed (TheContext st) = true →
  Functions st !! f = Some fo →
  let b := fresh (dom (Blocks st)) in
  let nt := enter_name Name (BasicBlockVal b) (SymTab fo) in
  BasicBlock_Create jl_LLVMContext Name (Some f) st =
  Returns b
    (mkState (TheContext st) (Modules st)
       (<[f := mkFunction (FName fo) (FTy fo) (Linkage fo) (FParent fo)
                          (Arguments fo) (BasicBlocks fo ++ [b]) nt.2]> (Functions st))
       (<[b := mkBasicBlock nt.1 (Some f) []]> (Blocks st))).
Proof.
  intros Hc Hf b nt. unfold BasicBlock_Create, bind, the_context, load_Function.
  rewrite Hc. simpl. rewrite Hf. fold b. fold nt. by destruct nt.
Qed.

Lemma IRBuilder_new_run st b bo :
  Blocks st !! b = Some bo → IRBuilder_new b st = Returns (mkIRBuilder b) st.
Proof. intros Hb. unfold IRBuilder_new, bind, load_BasicBlock. by rewrite Hb. Qed.

Lemma arg_begin_deref_run {A} st F fo a (k : Value → Op A) :
  Functions st !! F = Some fo →
  Arguments fo !! 0 = Some a →
  bind (Function_arg_begin F) (λ it, bind (arg_iterator_deref it) k) st =
  k (ArgumentVal F 0) st.
Proof.
  intros HF Ha.
  unfold Function_arg_begin, arg_iterator_deref, bind, load_Function, ret.
  rewrite HF. cbn [fst snd]. by rewrite HF, Ha.
Qed.

Lemma IRBuilder_CreateRet_run st b bo V :
  Blocks st !! b = Some bo →
  IRBuilder_CreateRet (mkIRBuilder b) V st =
  Returns (ReturnInst V)
    (mkState (TheContext st) (Modules st) (Functions st)
       (<[b := mkBasicBlock (BBName bo) (BBParent bo) (InstList bo ++ [ReturnInst V])]>
          (Blocks st))).
Proof.
  intros Hb. unfold IRBuilder_CreateRet, bind, load_BasicBlock. simpl. by rewrite Hb.
Qed.

End run.


(** * What [MakeIdentityFunction] computes *)

Section MakeIdentityFunction_facts.

Variable Tracked : N.

(** The whole effect of a call on a valid descriptor, as one equation. *)
Lemma MakeIdentityFunction_run st AnyTy T :
  constructed (TheContext st) = true →
  valid_descriptor st AnyTy T →
  let M := fresh (dom (Modules st)) in
  let F := fresh (dom (Functions st)) in
  let top := fresh (dom (Blocks st)) in
  let PT := uniqued (PointerTy T Tracked) (TheContext st) in
  let C1 := mkContext true (Types PT.2) ({[M]} ∪ OwnedModules (TheContext st)) in
  let FT := uniqued (FunctionTy PT.1 [PT.1] false) C1 in
  let PF := uniqued (PointerTy FT.1 0) FT.2 in
  MakeIdentityFunction Tracked AnyTy st =
  Returns (Some F)
    (mkState PF.2
       (<[M := mkModule "shadow" [F] {["identity" := FunctionVal F]}]> (Modules st))
       (<[F := mkFunction "identity" FT.1 ExternalLinkage (Some M)
                          [mkArgument PT.1 0 ""] [top] {["top" := BasicBlockVal top]}]>
          (Functions st))
       (<[top := mkBasicBlock "top" (Some F) [ReturnInst (Some (ArgumentVal F 0))]]>
          (Blocks st))).
Proof.
  intros Hc (P & AS & e & -> & HP & HT & He) M F top PT C1 FT PF.
  assert (constructed PT.2 = true) as HcPT by (unfold PT; by rewrite uniqued_constructed).
  assert (OwnedModules PT.2 = OwnedModules (TheContext st)) as HoPT
    by apply uniqued_OwnedModules.
  assert (Types C1 !! PT.1 = Some (PointerTy T Tracked)) as HPT by apply uniqued_lookup.
  assert (Types FT.2 !! FT.1 = Some (FunctionTy PT.1 [PT.1] false)) as HFT
    by apply uniqued_lookup.
  assert (Types FT.2 !! PT.1 = Some (PointerTy T Tracked)) as HPT'
    by by apply uniqued_keeps.
  assert (constructed FT.2 = true) as HcFT by (unfold FT; by rewrite uniqued_constructed).
  assert (constructed PF.2 = true) as HcPF by (unfold PF; by rewrite uniqued_constructed).
  unfold MakeIdentityFunction.
  rewrite (bind_Returns _ _ _ _ _ (PointerType_getElementType_run _ _ _ _ HP)).
  rewrite (bind_Returns _ _ _ _ _ (PointerType_get_run _ _ _ Tracked Hc HT He)).
  fold PT.
  erewrite bind_Returns; [|by apply Module_new_run].
  cbn [TheContext Modules Functions Blocks]. fold M. rewrite HoPT. fold C1.
  erewrite bind_Returns;
    [|eapply FunctionType_get_run; cbn [TheContext];
      [done|exact HPT|done|repeat constructor; eauto]].
  cbn [TheContext Modules Functions Blocks]. fold FT.
  erewrite bind_Returns;
    [|eapply Function_Create_run; cbn [TheContext Modules];
      [done|exact HFT|exact HPT'|done|apply lookup_insert_eq]].
  cbn [TheContext Modules Functions Blocks ModuleID FunctionList ValSymTab]. fold F.
  fold PF.
  rewrite enter_name_empty by done. cbn [fst snd app new_Arguments imap].
  rewrite insert_insert_eq.
  erewrite bind_Returns;
    [|eapply BasicBlock_Create_run; cbn [TheContext Functions];
      [done|apply lookup_insert_eq]].
  cbn [TheContext Modules Functions Blocks FName FTy Linkage FParent Arguments
       BasicBlocks SymTab].
  fold top. rewrite enter_name_empty by done. cbn [fst snd app].
  rewrite insert_insert_eq.
  erewrite bind_Returns;
    [|eapply IRBuilder_new_run; cbn [Blocks]; apply lookup_insert_eq].
  erewrite arg_begin_deref_run; [|cbn [Functions]; apply lookup_insert_eq|done].
  erewrite bind_Returns;
    [|eapply IRBuilder_CreateRet_run; cbn [Blocks]; apply lookup_insert_eq].
  cbn [TheContext Modules Functions Blocks BBName BBParent InstList app].
  by rewrite insert_insert_eq.
Qed.

(** The types found in the context after the call: those it had, in
    place, followed by those of the three types asked for that it did not
    hold yet. *)
Lemma MakeIdentityFunction_Types st T :
  let M := fresh (dom (Modules st)) in
  let PT := uniqued (PointerTy T Tracked) (TheContext st) in
  let C1 := mkContext true (Types PT.2) ({[M]} ∪ OwnedModules (TheContext st)) in
  let FT := uniqued (FunctionTy PT.1 [PT.1] false) C1 in
  let PF := uniqued (PointerTy FT.1 0) FT.2 in
  let ts := Types (TheContext st) in
  let c1 := missing (PointerTy T Tracked) ts in
  let c2 := missing (FunctionTy PT.1 [PT.1] false) (ts ++ c1) in
  let c3 := missing (PointerTy FT.1 0) (ts ++ c1 ++ c2) in
  Types PF.2 = ts ++ c1 ++ c2 ++ c3.
Proof.
  intros M PT C1 FT PF ts c1 c2 c3.
  assert (Types PT.2 = ts ++ c1) as H1 by apply uniqued_Types_missing.
  assert (Types FT.2 = ts ++ c1 ++ c2) as H2.
  { unfold FT. rewrite uniqued_Types_missing. cbn [Types C1].
    rewrite H1. by rewrite <-app_assoc. }
  unfold PF. rewrite uniqued_Types_missing, H2. by rewrite <-!app_assoc.
Qed.

Lemma MakeIdentityFunction_keeps_Types st AnyTy T F st' h t :
  constructed (TheContext st) = true →
  valid_descriptor st AnyTy T →
  MakeIdentityFunction Tracked AnyTy st = Returns (Some F) st' →
  Types (TheContext st) !! h = Some t →
  Types (TheContext st') !! h = Some t.
Proof.
  intros Hc Hv Hrun Hh. rewrite (MakeIdentityFunction_run st AnyTy T Hc Hv) in Hrun.
  injection Hrun as _ <-. cbn [TheContext].
  rewrite (MakeIdentityFunction_Types st T).
  by apply lookup_app_l_Some.
Qed.

(** A call in a context that already holds the three types creates none. *)
Lemma MakeIdentityFunction_run_interned st AnyTy T TrackedTy FT PF :
  constructed (TheContext st) = true →
  valid_descriptor st AnyTy T →
  find_Type (PointerTy T Tracked) (Types (TheContext st)) = Some TrackedTy →
  find_Type (FunctionTy TrackedTy [TrackedTy] false) (Types (TheContext st)) = Some FT →
  find_Type (PointerTy FT 0) (Types (TheContext st)) = Some PF →
  let M := fresh (dom (Modules st)) in
  let F := fresh (dom (Functions st)) in
  let top := fresh (dom (Blocks st)) in
  MakeIdentityFunction Tracked AnyTy st =
  Returns (Some F)
    (mkState (mkContext true (Types (TheContext st)) ({[M]} ∪ OwnedModules (TheContext st)))
       (<[M := mkModule "shadow" [F] {["identity" := FunctionVal F]}]> (Modules st))
       (<[F := mkFunction "identity" FT ExternalLinkage (Some M)
                          [mkArgument TrackedTy 0 ""] [top] {["top" := BasicBlockVal top]}]>
          (Functions st))
       (<[top := mkBasicBlock "top" (Some F) [ReturnInst (Some (ArgumentVal F 0))]]>
          (Blocks st))).
Proof.
  intros Hc Hv HP HF HPF M F top.
  rewrite (MakeIdentityFunction_run st AnyTy T Hc Hv).
  rewrite (uniqued_found _ _ _ HP). cbn [fst snd].
  rewrite (uniqued_found _ (mkContext _ _ _) _ HF). cbn [fst snd].
  by rewrite (uniqued_found _ (mkContext _ _ _) _ HPF).
Qed.

(** After a call the context holds the three types, at the places the
    function that was built refers to. *)
Lemma MakeIdentityFunction_interns st T :
  let M := fresh (dom (Modules st)) in
  let PT := uniqued (PointerTy T Tracked) (TheContext st) in
  let C1 := mkContext true (Types PT.2) ({[M]} ∪ OwnedModules (TheContext st)) in
  let FT := uniqued (FunctionTy PT.1 [PT.1] false) C1 in
  let PF := uniqued (PointerTy FT.1 0) FT.2 in
  find_Type (PointerTy T Tracked) (Types PF.2) = Some PT.1 ∧
  find_Type (FunctionTy PT.1 [PT.1] false) (Types PF.2) = Some FT.1 ∧
  find_Type (PointerTy FT.1 0) (Types PF.2) = Some PF.1.
Proof.
  intros M PT C1 FT PF. split_and!.
  - unfold PF. rewrite uniqued_Types. unfold FT at 1. rewrite uniqued_Types.
    cbn [Types C1]. rewrite <-app_assoc. apply uniqued_find.
  - unfold PF. rewrite uniqued_Types. apply uniqued_find.
  - rewrite <-(app_nil_r (Types PF.2)). apply uniqued_find.
Qed.

(** The context after a call: constructed as before, one more module, and
    the three types where the function refers to them. *)
Lemma MakeIdentityFunction_context st T :
  let M := fresh (dom (Modules st)) in
  let PT := uniqued (PointerTy T Tracked) (TheContext st) in
  let C1 := mkContext true (Types PT.2) ({[M]} ∪ OwnedModules (TheContext st)) in
  let FT := uniqued (FunctionTy PT.1 [PT.1] false) C1 in
  let PF := uniqued (PointerTy FT.1 0) FT.2 in
  constructed PF.2 = true ∧
  OwnedModules PF.2 = {[M]} ∪ OwnedModules (TheContext st) ∧
  Types PF.2 !! PT.1 = Some (PointerTy T Tracked) ∧
  Types PF.2 !! FT.1 = Some (FunctionTy PT.1 [PT.1] false) ∧
  Types PF.2 !! PF.1 = Some (PointerTy FT.1 0).
Proof.
  intros M PT C1 FT PF. split_and!.
  - unfold PF, FT. by rewrite !uniqued_constructed.
  - unfold PF, FT. by rewrite !uniqued_OwnedModules.
  - apply uniqued_keeps, uniqued_keeps. cbn [Types C1]. apply uniqued_lookup.
  - apply uniqued_keeps, uniqued_lookup.
  - apply uniqued_lookup.
Qed.

Lemma valid_descriptor_keeps st st' AnyTy T :
  (∀ h t, Types (TheContext st) !! h = Some t →
          Types (TheContext st') !! h = Some t) →
  valid_descriptor st AnyTy T → valid_descriptor st' AnyTy T.
Proof.
  intros Hk (P & AS & e & ? & ? & ? & ?). exists P, AS, e. split_and!; eauto.
Qed.

(** Two calls in a row, on descriptors that have the same pointee type. *)
Lemma MakeIdentityFunction_twice st A1 A2 T :
  constructed (TheContext st) = true →
  valid_descriptor st A1 T →
  valid_descriptor st A2 T →
  ∃ F1 M1 top1 F2 M2 top2 TrackedTy FT st1 st2,
    MakeIdentityFunction Tracked A1 st = Returns (Some F1) st1 ∧
    MakeIdentityFunction Tracked A2 st1 = Returns (Some F2) st2 ∧
    (F1 ≠ F2 ∧ M1 ≠ M2 ∧ top1 ≠ top2) ∧
    (Modules st !! M1 = None ∧ Modules st1 !! M2 = None) ∧
    Types (TheContext st2) !! FT = Some (FunctionTy TrackedTy [TrackedTy] false) ∧
    Types (TheContext st2) !! TrackedTy = Some (PointerTy T Tracked) ∧
    (Functions st2 !! F1 =
       Some (mkFunction "identity" FT ExternalLinkage (Some M1)
               [mkArgument TrackedTy 0 ""] [top1] {["top" := BasicBlockVal top1]}) ∧
     Modules st2 !! M1 = Some (mkModule "shadow" [F1] {["identity" := FunctionVal F1]}) ∧
     Blocks st2 !! top1 =
       Some (mkBasicBlock "top" (Some F1) [ReturnInst (Some (ArgumentVal F1 0))])) ∧
    (Functions st2 !! F2 =
       Some (mkFunction "identity" FT ExternalLinkage (Some M2)
               [mkArgument TrackedTy 0 ""] [top2] {["top" := BasicBlockVal top2]}) ∧
     Modules st2 !! M2 = Some (mkModule "shadow" [F2] {["identity" := FunctionVal F2]}) ∧
     Blocks st2 !! top2 =
       Some (mkBasicBlock "top" (Some F2) [ReturnInst (Some (ArgumentVal F2 0))])).
Proof.
  intros Hc Hv1 Hv2.
  pose proof (MakeIdentityFunction_run st A1 T Hc Hv1) as Hrun1. cbv zeta in Hrun1.
  destruct (MakeIdentityFunction_interns st T) as (HfP & HfF & HfPF).
  destruct (MakeIdentityFunction_context st T) as (HcPF & _ & HlP & HlF & _).
  match type of Hrun1 with _ = Returns (Some ?F) ?s => set (F1 := F) in *; set (st1 := s) in * end.
  assert (constructed (TheContext st1) = true) as Hc1
    by exact HcPF.
  assert (valid_descriptor st1 A2 T) as Hv2'.
  { eapply valid_descriptor_keeps; [|exact Hv2].
    intros h t Hh.
    exact (MakeIdentityFunction_keeps_Types st A1 T F1 st1 h t Hc Hv1 Hrun1 Hh). }
  pose proof (MakeIdentityFunction_run_interned st1 A2 T _ _ _ Hc1 Hv2' HfP HfF HfPF)
    as Hrun2.
  cbv zeta in Hrun2.
  match type of Hrun2 with _ = Returns (Some ?F) ?s => set (F2 := F) in *; set (st2 := s) in * end.
  set (M1 := fresh (dom (Modules st))) in *.
  set (M2 := fresh (dom (Modules st1))) in *.
  set (top1 := fresh (dom (Blocks st))) in *.
  set (top2 := fresh (dom (Blocks st1))) in *.
  assert (F1 ≠ F2) as HF.
  { intros E. apply (is_fresh (dom (Functions st1))). fold F2. rewrite <-E.
    apply elem_of_dom. unfold st1. cbn [Functions]. by rewrite lookup_insert_eq. }
  assert (M1 ≠ M2) as HM.
  { intros E. apply (is_fresh (dom (Modules st1))). fold M2. rewrite <-E.
    apply elem_of_dom. unfold st1. cbn [Modules]. by rewrite lookup_insert_eq. }
  assert (top1 ≠ top2) as Htop.
  { intros E. apply (is_fresh (dom (Blocks st1))). fold top2. rewrite <-E.
    apply elem_of_dom. unfold st1. cbn [Blocks]. by rewrite lookup_insert_eq. }
  exists F1, M1, top1, F2, M2, top2. do 2 eexists. exists st1, st2.
  split; [exact Hrun1|]. split; [exact Hrun2|]. split; [done|].
  split; [split; apply not_elem_of_dom, is_fresh|].
  unfold st2. cbn [TheContext Modules Functions Blocks].
  split; [exact HlF|].
  split; [exact HlP|].
  rewrite !lookup_insert_eq, !lookup_insert_ne by done.
  unfold st1. cbn [Modules Functions Blocks]. rewrite !lookup_insert_eq. done.
Qed.

(** ** The function that is built *)

(** (C1) For every valid pointer-type descriptor the call returns a function
    with exactly one basic block; the block is named "top", belongs to the
    function, and holds exactly one instruction: a return whose operand is
    argument number 0 of the function, which is the only argument it has. *)
Theorem MakeIdentityFunction_body st AnyTy T :
  constructed (TheContext st) = true →
  valid_descriptor st AnyTy T →
  ∃ F st' fo top bo a,
    MakeIdentityFunction Tracked AnyTy st = Returns (Some F) st' ∧
    Functions st' !! F = Some fo ∧
    BasicBlocks fo = [top] ∧
    Blocks st' !! top = Some bo ∧
    BBName bo = "top" ∧
    BBParent bo = Some F ∧
    Arguments fo = [a] ∧
    InstList bo = [ReturnInst (Some (ArgumentVal F 0))].
Proof.
  intros Hc Hv. do 6 eexists.
  split; [by apply MakeIdentityFunction_run|].
  cbn [Functions Blocks]. rewrite !lookup_insert_eq. by split_and!.
Qed.

(** (C2) For every valid descriptor with pointee type [T], the function that
    is returned has one parameter; the type of the parameter is the pointer
    to [T] in the Tracked address space; the return type is that same type. *)
Theorem MakeIdentityFunction_signature st AnyTy T :
  constructed (TheContext st) = true →
  valid_descriptor st AnyTy T →
  ∃ F st' fo TrackedTy isVarArg,
    MakeIdentityFunction Tracked AnyTy st = Returns (Some F) st' ∧
    Functions st' !! F = Some fo ∧
    Types (TheContext st') !! FTy fo = Some (FunctionTy TrackedTy [TrackedTy] isVarArg) ∧
    Types (TheContext st') !! TrackedTy = Some (PointerTy T Tracked) ∧
    ArgTy <$> Arguments fo = [TrackedTy].
Proof.
  intros Hc Hv. do 5 eexists.
  split; [by apply MakeIdentityFunction_run|].
  cbn [Functions TheContext]. rewrite lookup_insert_eq. cbn [FTy Arguments].
  destruct (MakeIdentityFunction_context st T) as (_ & _ & HlP & HlF & _).
  split_and!; done.
Qed.

(** (C3) The function that is returned is named "identity", has external
    linkage, and lives in the module that this very call allocated: the
    module did not exist before the call, it is the function's parent, and
    its function list and symbol table hold the function and nothing else. *)
Theorem MakeIdentityFunction_named_and_owned st AnyTy T :
  constructed (TheContext st) = true →
  valid_descriptor st AnyTy T →
  ∃ F st' fo M mo,
    MakeIdentityFunction Tracked AnyTy st = Returns (Some F) st' ∧
    Functions st' !! F = Some fo ∧
    FName fo = "identity" ∧
    Linkage fo = ExternalLinkage ∧
    FParent fo = Some M ∧
    Modules st !! M = None ∧
    Modules st' !! M = Some mo ∧
    FunctionList mo = [F] ∧
    ValSymTab mo = {["identity" := FunctionVal F]}.
Proof.
  intros Hc Hv. do 5 eexists.
  split; [by apply MakeIdentityFunction_run|].
  cbn [Functions Modules]. rewrite !lookup_insert_eq.
  split_and!; try done.
  apply not_elem_of_dom, is_fresh.
Qed.

(** (C8) The module allocated by the call is named "shadow". *)
Theorem MakeIdentityFunction_module_name st AnyTy T :
  constructed (TheContext st) = true →
  valid_descriptor st AnyTy T →
  ∃ F st' M mo,
    MakeIdentityFunction Tracked AnyTy st = Returns (Some F) st' ∧
    Function_getParent st' F = Some M ∧
    Modules st !! M = None ∧
    Modules st' !! M = Some mo ∧
    ModuleID mo = "shadow".
Proof.
  intros Hc Hv. do 4 eexists.
  split; [by apply MakeIdentityFunction_run|].
  unfold Function_getParent. cbn [Functions Modules]. rewrite !lookup_insert_eq.
  split_and!; try done.
  apply not_elem_of_dom, is_fresh.
Qed.

(** (C9) The type of the function that is built is not variadic. *)
Theorem MakeIdentityFunction_not_vararg st AnyTy T :
  constructed (TheContext st) = true →
  valid_descriptor st AnyTy T →
  ∃ F st' fo Result Params,
    MakeIdentityFunction Tracked AnyTy st = Returns (Some F) st' ∧
    Functions st' !! F = Some fo ∧
    Types (TheContext st') !! FTy fo = Some (FunctionTy Result Params false).
Proof.
  intros Hc Hv. do 5 eexists.
  split; [by apply MakeIdentityFunction_run|].
  cbn [Functions TheContext]. rewrite lookup_insert_eq. cbn [FTy].
  destruct (MakeIdentityFunction_context st T) as (_ & _ & _ & HlF & _).
  split; done.
Qed.

(** (C6) The call does not change the descriptor it is given: the type
    object behind the pointer is the same after the call as before, and so
    is every other type the context held. *)
Theorem MakeIdentityFunction_descriptor_unchanged st AnyTy T :
  constructed (TheContext st) = true →
  valid_descriptor st AnyTy T →
  ∃ F st',
    MakeIdentityFunction Tracked AnyTy st = Returns (Some F) st' ∧
    (∀ P, AnyTy = Some P →
          Types (TheContext st') !! P = Types (TheContext st) !! P) ∧
    (∀ h t, Types (TheContext st) !! h = Some t →
            Types (TheContext st') !! h = Some t).
Proof.
  intros Hc Hv.
  pose proof (MakeIdentityFunction_run st AnyTy T Hc Hv) as Hrun. cbv zeta in Hrun.
  match type of Hrun with _ = Returns (Some ?F) ?s => exists F, s end.
  split; [exact Hrun|].
  match goal with |- (∀ P, _ → ?l !! _ = _) ∧ _ =>
    assert (∀ h t, Types (TheContext st) !! h = Some t → l !! h = Some t) as Hkeep
      by (intros h t Hh; eapply MakeIdentityFunction_keeps_Types; eauto)
  end.
  split; [|exact Hkeep].
  intros P ->. destruct Hv as (P' & AS & e & [= <-] & HP & _).
  rewrite HP. by apply Hkeep.
Qed.

(** (C5) Two calls in a row on equivalent descriptors return two functions
    of the same structure (name, linkage, type, arguments, one block "top"
    with one return of argument 0) that live in two different modules, each
    module holding its own function and no other. *)
Theorem MakeIdentityFunction_twice_independent st A1 A2 T :
  constructed (TheContext st) = true →
  valid_descriptor st A1 T →
  equivalent_descriptors st A1 A2 →
  ∃ F1 st1 F2 st2 M1 M2 shape,
    MakeIdentityFunction Tracked A1 st = Returns (Some F1) st1 ∧
    MakeIdentityFunction Tracked A2 st1 = Returns (Some F2) st2 ∧
    Function_shape st2 F1 = Some shape ∧
    Function_shape st2 F2 = Some shape ∧
    F1 ≠ F2 ∧
    Function_getParent st2 F1 = Some M1 ∧
    Function_getParent st2 F2 = Some M2 ∧
    M1 ≠ M2 ∧
    FunctionList <$> Modules st2 !! M1 = Some [F1] ∧
    FunctionList <$> Modules st2 !! M2 = Some [F2].
Proof.
  intros Hc Hv1 (P1 & P2 & t & -> & -> & HP1 & HP2).
  assert (valid_descriptor st (Some P2) T) as Hv2.
  { destruct Hv1 as (P & AS & e & [= <-] & HP & HT & He).
    exists P2, AS, e. split_and!; congruence. }
  destruct (MakeIdentityFunction_twice st _ _ T Hc Hv1 Hv2)
    as (F1 & M1 & top1 & F2 & M2 & top2 & TrackedTy & FT & s1 & s2 & Hr1 & Hr2 &
        (HF & HM & _) & _ & _ & _ & (HF1 & HM1 & Hb1) & (HF2 & HM2 & Hb2)).
  exists F1, s1, F2, s2, M1, M2. eexists.
  split_and!; try done.
  - eapply Function_shape_single; eauto.
  - eapply Function_shape_single; eauto.
  - unfold Function_getParent. by rewrite HF1.
  - unfold Function_getParent. by rewrite HF2.
  - by rewrite HM1.
  - by rewrite HM2.
Qed.

(** (C10) The signature depends on the pointee type only.  For two valid
    descriptors with the same pointee type, whatever their own address
    spaces: the call does the same on either, and two calls in a row, one on
    each, build functions of the same type, tracked pointer to the pointee in,
    tracked pointer to the pointee out. *)
Theorem MakeIdentityFunction_ignores_address_space st A1 A2 T :
  constructed (TheContext st) = true →
  valid_descriptor st A1 T →
  valid_descriptor st A2 T →
  MakeIdentityFunction Tracked A1 st = MakeIdentityFunction Tracked A2 st ∧
  ∃ F1 st1 F2 st2 fo1 fo2 TrackedTy,
    MakeIdentityFunction Tracked A1 st = Returns (Some F1) st1 ∧
    MakeIdentityFunction Tracked A2 st1 = Returns (Some F2) st2 ∧
    Functions st2 !! F1 = Some fo1 ∧
    Functions st2 !! F2 = Some fo2 ∧
    FTy fo1 = FTy fo2 ∧
    Arguments fo1 = Arguments fo2 ∧
    Types (TheContext st2) !! FTy fo1 = Some (FunctionTy TrackedTy [TrackedTy] false) ∧
    Types (TheContext st2) !! TrackedTy = Some (PointerTy T Tracked).
Proof.
  intros Hc Hv1 Hv2. split.
  - by rewrite (MakeIdentityFunction_run st A1 T Hc Hv1),
               (MakeIdentityFunction_run st A2 T Hc Hv2).
  - destruct (MakeIdentityFunction_twice st _ _ T Hc Hv1 Hv2)
      as (F1 & M1 & top1 & F2 & M2 & top2 & TrackedTy & FT & s1 & s2 & Hr1 & Hr2 &
          _ & _ & HFT & HPT & (HF1 & _) & (HF2 & _)).
    exists F1, s1, F2, s2. do 2 eexists. exists TrackedTy.
    split_and!; eauto.
Qed.

(** ** Faults *)

(** With LLVM's assertions enabled the function returns only inside its
    contract. *)
Lemma MakeIdentityFunction_Returns_inv st AnyTy r st' :
  MakeIdentityFunction Tracked AnyTy st = Returns r st' →
  constructed (TheContext st) = true ∧ ∃ T, valid_descriptor st AnyTy T.
Proof.
  unfold MakeIdentityFunction. intros H.
  apply bind_inv in H as (E & s1 & H1 & H).
  apply bind_inv in H as (TT & s2 & H2 & _).
  destruct AnyTy as [P|]; [|done].
  unfold PointerType_getElementType, bind, load_Type in H1.
  destruct (Types (TheContext st) !! P) as [t|] eqn:HP; [|done].
  destruct t; try done. injection H1 as -> <-.
  unfold PointerType_get, bind, load_Type in H2.
  destruct (Types (TheContext st) !! E) as [e|] eqn:HE; [|done].
  destruct (isValidElementType e) eqn:He; [|done].
  unfold assert, ret, get_uniqued, bind, the_context in H2.
  destruct (constructed (TheContext st)) eqn:Hc; [|done].
  split; [done|]. exists E, P, AddressSpace, e. done.
Qed.

(** (C7) The function validates nothing.  A null descriptor is dereferenced
    and a context that is not constructed is used, so either one is a fault
    and never a return.  Whenever the function returns, what it returns is a
    function and not null: no return value reports an error.  Inside the
    contract, a descriptor that is not null in a constructed context, no
    fault is reached: the call returns. *)
Theorem MakeIdentityFunction_no_validation st AnyTy :
  (AnyTy = None → MakeIdentityFunction Tracked AnyTy st = Fails NullDereference) ∧
  (constructed (TheContext st) = false →
     ∃ e, MakeIdentityFunction Tracked AnyTy st = Fails e) ∧
  (∀ r st', MakeIdentityFunction Tracked AnyTy st = Returns r st' → r ≠ None) ∧
  (∀ T, constructed (TheContext st) = true → valid_descriptor st AnyTy T →
     ∃ F st', MakeIdentityFunction Tracked AnyTy st = Returns (Some F) st').
Proof.
  split_and!.
  - by intros ->.
  - intros Hc. destruct (MakeIdentityFunction Tracked AnyTy st) as [r st'|e] eqn:H; [|eauto].
    apply MakeIdentityFunction_Returns_inv in H as [? _]. congruence.
  - intros r st' H.
    destruct (MakeIdentityFunction_Returns_inv _ _ _ _ H) as (Hc & T & Hv).
    rewrite (MakeIdentityFunction_run st AnyTy T Hc Hv) in H.
    by injection H as <- _.
  - intros T Hc Hv. do 2 eexists. by apply MakeIdentityFunction_run.
Qed.

(** ** The footprint of a call *)


End MakeIdentityFunction_facts.

(** * More about a call: its contract, the context, the store *)

Section MakeIdentityFunction_more.

Variable Tracked : N.

Lemma find_Type_NoDup t ts T :
  NoDup ts → ts !! T = Some t → find_Type t ts = Some T.
Proof.
  intros Hnd HT.
  destruct (find_Type t ts) as [T'|] eqn:Hf.
  - f_equal. eapply NoDup_lookup; eauto using find_Type_Some.
  - unfold find_Type in Hf. apply fmap_None, list_find_None in Hf.
    rewrite Forall_forall in Hf. destruct (Hf t); [|done].
    by eapply list_elem_of_lookup_2.
Qed.

(** (X3) A call adds at most three types to the context, and the next call
    on a descriptor with the same pointee adds none: the types are created
    once, however many functions are built over them. *)
Theorem MakeIdentityFunction_types_created_once st A1 A2 T :
  constructed (TheContext st) = true →
  valid_descriptor st A1 T →
  valid_descriptor st A2 T →
  ∃ F1 st1 F2 st2,
    MakeIdentityFunction Tracked A1 st = Returns (Some F1) st1 ∧
    MakeIdentityFunction Tracked A2 st1 = Returns (Some F2) st2 ∧
    length (Types (TheContext st1)) ≤ length (Types (TheContext st)) + 3 ∧
    Types (TheContext st2) = Types (TheContext st1).
Proof.
  intros Hc Hv1 Hv2.
  pose proof (MakeIdentityFunction_run Tracked st A1 T Hc Hv1) as Hrun1.
  cbv zeta in Hrun1.
  destruct (MakeIdentityFunction_interns Tracked st T) as (HfP & HfF & HfPF).
  destruct (MakeIdentityFunction_context Tracked st T) as (HcPF & _).
  pose proof (MakeIdentityFunction_Types Tracked st T) as HT. cbv zeta in HT.
  match type of Hrun1 with _ = Returns (Some ?F) ?s =>
    set (F1 := F) in *; set (s1 := s) in * end.
  assert (valid_descriptor s1 A2 T) as Hv2'.
  { eapply valid_descriptor_keeps; [|exact Hv2]. intros h t Hh.
    exact (MakeIdentityFunction_keeps_Types Tracked st A1 T F1 s1 h t Hc Hv1 Hrun1 Hh). }
  exists F1, s1. do 2 eexists.
  split; [exact Hrun1|].
  split; [exact (MakeIdentityFunction_run_interned Tracked s1 A2 T _ _ _
                   HcPF Hv2' HfP HfF HfPF)|].
  split; [|done].
  unfold s1. cbn [TheContext]. rewrite HT, !length_app.
  unfold missing. repeat case_decide; simpl; lia.
Qed.


(** (X4) In a context whose types are uniqued, a descriptor that is already
    a pointer in the Tracked address space is used as it is: the parameter
    type and the return type of the function that is built are the
    descriptor itself. *)
Theorem MakeIdentityFunction_tracked_descriptor st P T :
  constructed (TheContext st) = true →
  NoDup (Types (TheContext st)) →
  valid_descriptor st (Some P) T →
  Types (TheContext st) !! P = Some (PointerTy T Tracked) →
  ∃ F st' fo,
    MakeIdentityFunction Tracked (Some P) st = Returns (Some F) st' ∧
    Functions st' !! F = Some fo ∧
    Types (TheContext st') !! FTy fo = Some (FunctionTy P [P] false) ∧
    ArgTy <$> Arguments fo = [P].
Proof.
  intros Hc Hnd Hv HP. do 3 eexists.
  split; [by apply MakeIdentityFunction_run|].
  cbn [Functions TheContext]. rewrite lookup_insert_eq. cbn [FTy Arguments].
  destruct (MakeIdentityFunction_context Tracked st T) as (_ & _ & _ & HlF & _).
  revert HlF. rewrite (uniqued_found _ _ _ (find_Type_NoDup _ _ _ Hnd HP)).
  cbn [fst snd]. intros HlF. split_and!; done.
Qed.

(** (X9) A descriptor in any other address space is not the parameter type:
    the function takes and returns a type object different from the
    descriptor it was built from. *)
Theorem MakeIdentityFunction_untracked_descriptor st P T AS :
  constructed (TheContext st) = true →
  valid_descriptor st (Some P) T →
  Types (TheContext st) !! P = Some (PointerTy T AS) →
  AS ≠ Tracked →
  ∃ F st' fo TrackedTy,
    MakeIdentityFunction Tracked (Some P) st = Returns (Some F) st' ∧
    Functions st' !! F = Some fo ∧
    Types (TheContext st') !! FTy fo = Some (FunctionTy TrackedTy [TrackedTy] false) ∧
    TrackedTy ≠ P.
Proof.
  intros Hc Hv HP HAS.
  pose proof (MakeIdentityFunction_run Tracked st (Some P) T Hc Hv) as Hrun.
  cbv zeta in Hrun.
  match type of Hrun with _ = Returns (Some ?F0) ?s => exists F0, s end.
  do 2 eexists. split; [exact Hrun|].
  cbn [Functions TheContext]. rewrite lookup_insert_eq. cbn [FTy].
  destruct (MakeIdentityFunction_context Tracked st T) as (_ & _ & _ & HlF & _).
  split_and!; [done|exact HlF|].
  intros E.
  pose proof (uniqued_lookup (PointerTy T Tracked) (TheContext st)) as Hl.
  rewrite E, (uniqued_keeps _ _ _ _ HP) in Hl. congruence.
Qed.

(** (X7) The function that is built is the identity: called on one actual
    argument, it returns that argument. *)
Theorem MakeIdentityFunction_is_identity st AnyTy T :
  constructed (TheContext st) = true →
  valid_descriptor st AnyTy T →
  ∃ F st',
    MakeIdentityFunction Tracked AnyTy st = Returns (Some F) st' ∧
    ∀ p, call_Function st' F [p] = Some (Some p).
Proof.
  intros Hc Hv. do 2 eexists.
  split; [by apply MakeIdentityFunction_run|].
  intros p. unfold call_Function. cbn [Functions Blocks].
  rewrite lookup_insert_eq. simpl. rewrite lookup_insert_eq. simpl.
  by rewrite decide_True.
Qed.

(** (X5) The call keeps the store consistent: when the links between
    context, modules, functions, blocks and types agree before the call, they
    agree after it, the new module, function and block included. *)
Theorem MakeIdentityFunction_keeps_consistent st AnyTy T :
  constructed (TheContext st) = true →
  valid_descriptor st AnyTy T →
  consistent st →
  ∃ F st',
    MakeIdentityFunction Tracked AnyTy st = Returns (Some F) st' ∧
    consistent st'.
Proof.
  intros Hc Hv [Ho Hfp Hmf Hms Hbp Hfb Hft Hra].
  pose proof (MakeIdentityFunction_run Tracked st AnyTy T Hc Hv) as Hrun.
  cbv zeta in Hrun.
  pose proof (MakeIdentityFunction_Types Tracked st T) as HT. cbv zeta in HT.
  destruct (MakeIdentityFunction_context Tracked st T) as (_ & HoPF & _ & HFT & _).
  set (PT := uniqued (PointerTy T Tracked) (TheContext st)) in *.
  set (FT := uniqued (FunctionTy PT.1 [PT.1] false) _) in *.
  set (PF := uniqued (PointerTy FT.1 0) FT.2) in *.
  set (M := fresh (dom (Modules st))) in *.
  set (F := fresh (dom (Functions st))) in *.
  set (top := fresh (dom (Blocks st))) in *.
  assert (Modules st !! M = None) as HM by apply not_elem_of_dom, is_fresh.
  assert (Functions st !! F = None) as HF by apply not_elem_of_dom, is_fresh.
  assert (Blocks st !! top = None) as Htop by apply not_elem_of_dom, is_fresh.
  do 2 eexists. split; [exact Hrun|].
  constructor; cbn [TheContext Modules Functions Blocks].
  - intros m. rewrite HoPF.
    rewrite elem_of_union, elem_of_singleton, lookup_insert_is_Some, Ho.
    split.
    + intros [->|Hm]; [by left|]. destruct (decide (M = m)); [by left|by right].
    + intros [->|[_ Hm]]; [by left|by right].
  - intros f fo m [[<- <-]|[Hne Hf]]%lookup_insert_Some Hp.
    + injection Hp as <-. rewrite lookup_insert_eq. eexists. split; [done|].
      cbn. apply list_elem_of_here.
    + destruct (Hfp f fo m Hf Hp) as (mo & Hm & Hin).
      exists mo. split; [|done]. rewrite lookup_insert_ne; [done|congruence].
  - intros m mo f [[<- <-]|[Hne Hm]]%lookup_insert_Some Hin.
    + cbn in Hin. apply list_elem_of_singleton in Hin as ->.
      rewrite lookup_insert_eq. eauto.
    + destruct (Hmf m mo f Hm Hin) as (fo & Hf & Hp).
      exists fo. split; [|done]. rewrite lookup_insert_ne; [done|congruence].
  - intros m mo N V [[<- <-]|[Hne Hm]]%lookup_insert_Some HV.
    + cbn in HV. apply lookup_singleton_Some in HV as [<- <-].
      do 2 eexists. rewrite lookup_insert_eq. split_and!; try done. cbn. apply list_elem_of_here.
    + destruct (Hms m mo N V Hm HV) as (f & fo & -> & Hin & Hf & HN).
      exists f, fo. split_and!; try done.
      rewrite lookup_insert_ne; [done|congruence].
  - intros b bo f [[<- <-]|[Hne Hb]]%lookup_insert_Some Hp.
    + injection Hp as <-. rewrite lookup_insert_eq. eexists. split; [done|].
      cbn. apply list_elem_of_here.
    + destruct (Hbp b bo f Hb Hp) as (fo & Hf & Hin).
      exists fo. split; [|done]. rewrite lookup_insert_ne; [done|congruence].
  - intros f fo b [[<- <-]|[Hne Hf]]%lookup_insert_Some Hin.
    + cbn in Hin. apply list_elem_of_singleton in Hin as ->.
      rewrite lookup_insert_eq. eauto.
    + destruct (Hfb f fo b Hf Hin) as (bo & Hb & Hp).
      exists bo. split; [|done]. rewrite lookup_insert_ne; [done|congruence].
  - intros f fo [[<- <-]|[Hne Hf]]%lookup_insert_Some.
    + cbn. eauto.
    + destruct (Hft f fo Hf) as (R & va & Hty). exists R, va.
      rewrite HT. by apply lookup_app_l_Some.
  - intros b bo f n [[<- <-]|[Hne Hb]]%lookup_insert_Some Hin.
    + cbn in Hin. apply list_elem_of_singleton in Hin. injection Hin as -> ->.
      split; [done|]. rewrite lookup_insert_eq. eexists. split; [done|]. cbn. eauto.
    + destruct (Hra b bo f n Hb Hin) as (Hp & fo & Hf & Ha).
      split; [done|]. exists fo. split; [|done].
      rewrite lookup_insert_ne; [done|congruence].
Qed.

(** (X6) Any number of calls in a row, each on a valid descriptor, all
    return.  The functions are pairwise different; each is named "identity"
    and is the only function of a module named "shadow" that did not exist
    at the start, so the store has one more module per call.  Nothing that
    existed at the start is changed by any of the calls. *)
Theorem MakeIdentityFunctions_all st AnyTys :
  constructed (TheContext st) = true →
  Forall (λ A, ∃ T, valid_descriptor st A T) AnyTys →
  ∃ Fs st',
    MakeIdentityFunctions Tracked AnyTys st = Returns (Some <$> Fs) st' ∧
    length Fs = length AnyTys ∧
    NoDup Fs ∧
    size (Modules st') = size (Modules st) + length AnyTys ∧
    Forall (λ F,
      Functions st !! F = None ∧
      ∃ fo M mo,
        Functions st' !! F = Some fo ∧
        FName fo = "identity" ∧
        FParent fo = Some M ∧
        Modules st !! M = None ∧
        Modules st' !! M = Some mo ∧
        ModuleID mo = "shadow" ∧
        FunctionList mo = [F]) Fs ∧
    constructed (TheContext st') = true ∧
    (∀ h t, Types (TheContext st) !! h = Some t →
            Types (TheContext st') !! h = Some t) ∧
    (∀ m, is_Some (Modules st !! m) → Modules st' !! m = Modules st !! m) ∧
    (∀ f, is_Some (Functions st !! f) → Functions st' !! f = Functions st !! f) ∧
    (∀ b, is_Some (Blocks st !! b) → Blocks st' !! b = Blocks st !! b).
Proof.
  intros Hc HAs. revert st Hc HAs.
  induction AnyTys as [|A As IH]; intros st Hc HAs.
  { exists [], st. split_and!; try done; try (by constructor); simpl; lia. }
  apply Forall_cons in HAs as [(T & Hv) HAs].
  pose proof (MakeIdentityFunction_run Tracked st A T Hc Hv) as Hrun.
  cbv zeta in Hrun.
  match type of Hrun with _ = Returns (Some ?F0) ?s =>
    set (F := F0) in *; set (s1 := s) in * end.
  assert (∀ h t, Types (TheContext st) !! h = Some t →
                 Types (TheContext s1) !! h = Some t) as Hty
    by (intros h t Hh;
        exact (MakeIdentityFunction_keeps_Types Tracked st A T F s1 h t Hc Hv Hrun Hh)).
  assert (constructed (TheContext s1) = true) as Hc1
    by apply (MakeIdentityFunction_context Tracked st T).
  assert (Forall (λ A, ∃ T, valid_descriptor s1 A T) As) as HAs1.
  { eapply Forall_impl; [exact HAs|]. intros A' (T' & Hv').
    exists T'. by eapply valid_descriptor_keeps. }
  destruct (IH s1 Hc1 HAs1)
    as (Fs & st' & Hruns & Hlen & Hnd & Hsize & Hall & Hc' & Hty' & Hm' & Hf' & Hb').
  set (M := fresh (dom (Modules st))) in *.
  assert (Modules st !! M = None) as HM by apply not_elem_of_dom, is_fresh.
  assert (Functions st !! F = None) as HF by apply not_elem_of_dom, is_fresh.
  assert (Blocks st !! fresh (dom (Blocks st)) = None) as Hb
    by apply not_elem_of_dom, is_fresh.
  assert (∀ m, is_Some (Modules st !! m) → Modules s1 !! m = Modules st !! m) as Hm1.
  { intros m Hm. unfold s1. cbn [Modules]. by apply lookup_insert_fresh. }
  assert (∀ f, is_Some (Functions st !! f) → Functions s1 !! f = Functions st !! f) as Hf1.
  { intros f Hf. unfold s1. cbn [Functions]. by apply lookup_insert_fresh. }
  assert (∀ b, is_Some (Blocks st !! b) → Blocks s1 !! b = Blocks st !! b) as Hb1.
  { intros b Hb0. unfold s1. cbn [Blocks]. by apply lookup_insert_fresh. }
  exists (F :: Fs), st'. split_and!.
  - simpl. rewrite (bind_Returns _ _ _ _ _ Hrun), (bind_Returns _ _ _ _ _ Hruns). done.
  - simpl. by rewrite Hlen.
  - apply NoDup_cons. split; [|done]. intros Hin.
    rewrite Forall_forall in Hall. destruct (Hall F Hin) as [HFs1 _].
    unfold s1 in HFs1. cbn [Functions] in HFs1. by rewrite lookup_insert_eq in HFs1.
  - rewrite Hsize. unfold s1. cbn [Modules length].
    rewrite map_size_insert_None by done. lia.
  - apply Forall_cons. split.
    + split; [done|]. do 3 eexists.
      rewrite Hf', Hm'; unfold s1; cbn [Functions Modules];
        rewrite ?lookup_insert_eq; [|done..].
      split_and!; done.
    + eapply Forall_impl; [exact Hall|]. intros F' (HF' & fo & M' & mo & H1 & H2 & H3 & H4 & H5 & H6 & H7).
      split.
      { unfold s1 in HF'. cbn [Functions] in HF'.
        by apply lookup_insert_None in HF' as [? _]. }
      exists fo, M', mo. split_and!; try done.
      unfold s1 in H4. cbn [Modules] in H4. by apply lookup_insert_None in H4 as [? _].
  - done.
  - eauto.
  - intros m Hm. rewrite Hm'; [by apply Hm1|]. by rewrite Hm1.
  - intros f Hf. rewrite Hf'; [by apply Hf1|]. by rewrite Hf1.
  - intros b Hb0. rewrite Hb'; [by apply Hb1|]. by rewrite Hb1.
Qed.

(** (X8) A later call does not disturb a function built earlier.  After a
    call, and after one more call on any descriptor that is valid then,
    whatever its pointee, the first function still returns its argument, and
    so does the second. *)
Theorem MakeIdentityFunction_identity_stable st A1 T1 :
  constructed (TheContext st) = true →
  valid_descriptor st A1 T1 →
  ∃ F1 st1,
    MakeIdentityFunction Tracked A1 st = Returns (Some F1) st1 ∧
    (∀ p, call_Function st1 F1 [p] = Some (Some p)) ∧
    ∀ A2 T2,
      valid_descriptor st1 A2 T2 →
      ∃ F2 st2,
        MakeIdentityFunction Tracked A2 st1 = Returns (Some F2) st2 ∧
        ∀ p, call_Function st2 F1 [p] = Some (Some p) ∧
             call_Function st2 F2 [p] = Some (Some p).
Proof.
  intros Hc Hv1.
  pose proof (MakeIdentityFunction_run Tracked st A1 T1 Hc Hv1) as Hrun1.
  cbv zeta in Hrun1.
  match type of Hrun1 with _ = Returns (Some ?F) ?s =>
    set (F1 := F) in *; set (s1 := s) in * end.
  assert (constructed (TheContext s1) = true) as Hc1
    by apply (MakeIdentityFunction_context Tracked st T1).
  assert (∀ s,
            Functions s !! F1 = Functions s1 !! F1 →
            Blocks s !! fresh (dom (Blocks st)) = Blocks s1 !! fresh (dom (Blocks st)) →
            ∀ p, call_Function s F1 [p] = Some (Some p)) as Hid.
  { intros s HF Hb p. unfold call_Function. rewrite HF.
    unfold s1 at 1. cbn [Functions]. rewrite lookup_insert_eq. simpl.
    rewrite Hb. unfold s1. cbn [Blocks]. rewrite lookup_insert_eq. simpl.
    by rewrite decide_True. }
  exists F1, s1. split; [exact Hrun1|]. split; [by apply (Hid s1)|].
  intros A2 T2 Hv2.
  pose proof (MakeIdentityFunction_run Tracked s1 A2 T2 Hc1 Hv2) as Hrun2.
  cbv zeta in Hrun2.
  match type of Hrun2 with _ = Returns (Some ?F) ?s => exists F, s end.
  split; [exact Hrun2|]. intros p. split.
  - apply Hid; cbn [Functions Blocks]; apply lookup_insert_fresh;
      unfold s1; cbn [Functions Blocks]; by rewrite lookup_insert_eq.
  - unfold call_Function. cbn [Functions Blocks].
    rewrite lookup_insert_eq. simpl. rewrite lookup_insert_eq. simpl.
    by rewrite decide_True.
Qed.


End MakeIdentityFunction_more.

(** * The properties at work on [i32*] *)

Ltac descriptor P AS :=
  exists P, AS, (IntegerTy 32); split_and!; reflexivity.

(** Outside the contract the call does not return: a pointer that is not a
    pointer type's, a pointer to nothing, a context that is not constructed. *)
Example MakeIdentityFunction_on_i32 :
  MakeIdentityFunction 10 (Some 0) store0 = Fails BadCast.
Proof. reflexivity. Qed.

Example MakeIdentityFunction_on_dangling :
  MakeIdentityFunction 10 (Some 7) store0 = Fails DanglingPointer.
Proof. reflexivity. Qed.

Example MakeIdentityFunction_without_context :
  MakeIdentityFunction 10 (Some 1)
    (mkState (mkContext false [IntegerTy 32; PointerTy 0 0] ∅) ∅ ∅ ∅)
  = Fails ContextNotConstructed.
Proof. reflexivity. Qed.


Lemma MakeIdentityFunction_body_witness :
  constructed (TheContext store0) = true ∧
  valid_descriptor store0 (Some 1) 0 ∧
  ∃ F st' fo top bo a,
    MakeIdentityFunction 10 (Some 1) store0 = Returns (Some F) st' ∧
    Functions st' !! F = Some fo ∧
    BasicBlocks fo = [top] ∧
    Blocks st' !! top = Some bo ∧
    BBName bo = "top" ∧
    BBParent bo = Some F ∧
    Arguments fo = [a] ∧
    InstList bo = [ReturnInst (Some (ArgumentVal F 0))].
Proof.
  split; [reflexivity|]. split; [descriptor 1 0%N|].
  apply (MakeIdentityFunction_body 10 store0 (Some 1) 0); [reflexivity|descriptor 1 0%N].
Defined.

Lemma MakeIdentityFunction_signature_witness :
  constructed (TheContext store0) = true ∧
  valid_descriptor store0 (Some 1) 0 ∧
  ∃ F st' fo TrackedTy isVarArg,
    MakeIdentityFunction 10 (Some 1) store0 = Returns (Some F) st' ∧
    Functions st' !! F = Some fo ∧
    Types (TheContext st') !! FTy fo = Some (FunctionTy TrackedTy [TrackedTy] isVarArg) ∧
    Types (TheContext st') !! TrackedTy = Some (PointerTy 0 10) ∧
    ArgTy <$> Arguments fo = [TrackedTy].
Proof.
  split; [reflexivity|]. split; [descriptor 1 0%N|].
  apply (MakeIdentityFunction_signature 10 store0 (Some 1) 0);
    [reflexivity|descriptor 1 0%N].
Defined.

Lemma MakeIdentityFunction_named_and_owned_witness :
  constructed (TheContext store0) = true ∧
  valid_descriptor store0 (Some 1) 0 ∧
  ∃ F st' fo M mo,
    MakeIdentityFunction 10 (Some 1) store0 = Returns (Some F) st' ∧
    Functions st' !! F = Some fo ∧
    FName fo = "identity" ∧
    Linkage fo = ExternalLinkage ∧
    FParent fo = Some M ∧
    Modules store0 !! M = None ∧
    Modules st' !! M = Some mo ∧
    FunctionList mo = [F] ∧
    ValSymTab mo = {["identity" := FunctionVal F]}.
Proof.
  split; [reflexivity|]. split; [descriptor 1 0%N|].
  apply (MakeIdentityFunction_named_and_owned 10 store0 (Some 1) 0);
    [reflexivity|descriptor 1 0%N].
Defined.

Lemma MakeIdentityFunction_module_name_witness :
  constructed (TheContext store0) = true ∧
  valid_descriptor store0 (Some 1) 0 ∧
  ∃ F st' M mo,
    MakeIdentityFunction 10 (Some 1) store0 = Returns (Some F) st' ∧
    Function_getParent st' F = Some M ∧
    Modules store0 !! M = None ∧
    Modules st' !! M = Some mo ∧
    ModuleID mo = "shadow".
Proof.
  split; [reflexivity|]. split; [descriptor 1 0%N|].
  apply (MakeIdentityFunction_module_name 10 store0 (Some 1) 0);
    [reflexivity|descriptor 1 0%N].
Defined.

Lemma MakeIdentityFunction_not_vararg_witness :
  constructed (TheContext store0) = true ∧
  valid_descriptor store0 (Some 1) 0 ∧
  ∃ F st' fo Result Params,
    MakeIdentityFunction 10 (Some 1) store0 = Returns (Some F) st' ∧
    Functions st' !! F = Some fo ∧
    Types (TheContext st') !! FTy fo = Some (FunctionTy Result Params false).
Proof.
  split; [reflexivity|]. split; [descriptor 1 0%N|].
  apply (MakeIdentityFunction_not_vararg 10 store0 (Some 1) 0);
    [reflexivity|descriptor 1 0%N].
Defined.

Lemma MakeIdentityFunction_descriptor_unchanged_witness :
  constructed (TheContext store0) = true ∧
  valid_descriptor store0 (Some 1) 0 ∧
  ∃ F st',
    MakeIdentityFunction 10 (Some 1) store0 = Returns (Some F) st' ∧
    Types (TheContext st') !! 1 = Some (PointerTy 0 0).
Proof.
  split; [reflexivity|]. split; [descriptor 1 0%N|].
  destruct (MakeIdentityFunction_descriptor_unchanged 10 store0 (Some 1) 0)
    as (F & st' & Hrun & HP & _); [reflexivity|descriptor 1 0%N|].
  exists F, st'. split; [exact Hrun|].
  etrans; [apply (HP 1 eq_refl)|reflexivity].
Defined.

Lemma MakeIdentityFunction_twice_independent_witness :
  constructed (TheContext store0) = true ∧
  valid_descriptor store0 (Some 1) 0 ∧
  equivalent_descriptors store0 (Some 1) (Some 1) ∧
  ∃ F1 st1 F2 st2 M1 M2,
    MakeIdentityFunction 10 (Some 1) store0 = Returns (Some F1) st1 ∧
    MakeIdentityFunction 10 (Some 1) st1 = Returns (Some F2) st2 ∧
    Function_shape st2 F1 = Function_shape st2 F2 ∧
    Function_getParent st2 F1 = Some M1 ∧
    Function_getParent st2 F2 = Some M2 ∧
    M1 ≠ M2.
Proof.
  assert (equivalent_descriptors store0 (Some 1) (Some 1)) as He
    by (exists 1, 1, (PointerTy 0 0); split_and!; reflexivity).
  split; [reflexivity|]. split; [descriptor 1 0%N|]. split; [exact He|].
  destruct (MakeIdentityFunction_twice_independent 10 store0 (Some 1) (Some 1) 0)
    as (F1 & s1 & F2 & s2 & M1 & M2 & sh & H1 & H2 & Hs1 & Hs2 & _ & HM1 & HM2 & HM & _);
    [reflexivity|descriptor 1 0%N|exact He|].
  exists F1, s1, F2, s2, M1, M2. split_and!; congruence.
Defined.

Lemma MakeIdentityFunction_ignores_address_space_witness :
  constructed (TheContext store1) = true ∧
  valid_descriptor store1 (Some 1) 0 ∧
  valid_descriptor store1 (Some 2) 0 ∧
  MakeIdentityFunction 10 (Some 1) store1 = MakeIdentityFunction 10 (Some 2) store1.
Proof.
  split; [reflexivity|]. split; [descriptor 1 0%N|]. split; [descriptor 2 10%N|].
  apply (MakeIdentityFunction_ignores_address_space 10 store1 (Some 1) (Some 2) 0);
    [reflexivity|descriptor 1 0%N|descriptor 2 10%N].
Defined.

Lemma MakeIdentityFunction_no_validation_witness :
  MakeIdentityFunction 10 None store0 = Fails NullDereference ∧
  constructed (TheContext store0) = true ∧
  valid_descriptor store0 (Some 1) 0 ∧
  ∃ F st', MakeIdentityFunction 10 (Some 1) store0 = Returns (Some F) st'.
Proof.
  destruct (MakeIdentityFunction_no_validation 10 store0 None) as (Hnull & _).
  destruct (MakeIdentityFunction_no_validation 10 store0 (Some 1)) as (_ & _ & _ & Hok).
  split; [by apply Hnull|]. split; [reflexivity|]. split; [descriptor 1 0%N|].
  apply (Hok 0); [reflexivity|descriptor 1 0%N].
Defined.


(** * The further properties at work *)

Lemma MakeIdentityFunction_types_created_once_witness :
  constructed (TheContext store0) = true ∧
  valid_descriptor store0 (Some 1) 0 ∧
  ∃ F1 st1 F2 st2,
    MakeIdentityFunction 10 (Some 1) store0 = Returns (Some F1) st1 ∧
    MakeIdentityFunction 10 (Some 1) st1 = Returns (Some F2) st2 ∧
    length (Types (TheContext st1)) ≤ length (Types (TheContext store0)) + 3 ∧
    Types (TheContext st2) = Types (TheContext st1).
Proof.
  split; [reflexivity|]. split; [descriptor 1 0%N|].
  apply (MakeIdentityFunction_types_created_once 10 store0 (Some 1) (Some 1) 0);
    [reflexivity|descriptor 1 0%N|descriptor 1 0%N].
Defined.

Lemma MakeIdentityFunction_tracked_descriptor_witness :
  constructed (TheContext store1) = true ∧
  NoDup (Types (TheContext store1)) ∧
  valid_descriptor store1 (Some 2) 0 ∧
  Types (TheContext store1) !! 2 = Some (PointerTy 0 10) ∧
  ∃ F st' fo,
    MakeIdentityFunction 10 (Some 2) store1 = Returns (Some F) st' ∧
    Functions st' !! F = Some fo ∧
    Types (TheContext st') !! FTy fo = Some (FunctionTy 2 [2] false) ∧
    ArgTy <$> Arguments fo = [2].
Proof.
  assert (NoDup (Types (TheContext store1))) as Hnd by compute_done.
  split; [reflexivity|]. split; [exact Hnd|]. split; [descriptor 2 10%N|].
  split; [reflexivity|].
  apply (MakeIdentityFunction_tracked_descriptor 10 store1 2 0);
    [reflexivity|exact Hnd|descriptor 2 10%N|reflexivity].
Defined.

Lemma consistent_store0 : consistent store0.
Proof.
  constructor; cbn [store0 TheContext Modules Functions Blocks OwnedModules];
    intros *; rewrite ?lookup_empty; done.
Defined.

Lemma MakeIdentityFunction_keeps_consistent_witness :
  constructed (TheContext store0) = true ∧
  valid_descriptor store0 (Some 1) 0 ∧
  consistent store0 ∧
  ∃ F1 st1 F2 st2,
    MakeIdentityFunction 10 (Some 1) store0 = Returns (Some F1) st1 ∧
    consistent st1 ∧
    MakeIdentityFunction 10 (Some 1) st1 = Returns (Some F2) st2 ∧
    consistent st2.
Proof.
  split; [reflexivity|]. split; [descriptor 1 0%N|]. split; [exact consistent_store0|].
  destruct (MakeIdentityFunction_keeps_consistent 10 store0 (Some 1) 0)
    as (F1 & s1 & H1 & Hw1); [reflexivity|descriptor 1 0%N|exact consistent_store0|].
  assert (constructed (TheContext s1) = true ∧ valid_descriptor s1 (Some 1) 0)
    as [Hc1 Hv1].
  { rewrite (MakeIdentityFunction_run 10 store0 (Some 1) 0) in H1;
      [|reflexivity|descriptor 1 0%N].
    injection H1 as _ <-. split; [reflexivity|descriptor 1 0%N]. }
  destruct (MakeIdentityFunction_keeps_consistent 10 s1 (Some 1) 0 Hc1 Hv1 Hw1)
    as (F2 & s2 & H2 & Hw2).
  exists F1, s1, F2, s2. done.
Defined.

Lemma MakeIdentityFunctions_all_witness :
  constructed (TheContext store0) = true ∧
  Forall (λ A, ∃ T, valid_descriptor store0 A T) [Some 1; Some 1; Some 1] ∧
  ∃ Fs st',
    MakeIdentityFunctions 10 [Some 1; Some 1; Some 1] store0 = Returns (Some <$> Fs) st' ∧
    length Fs = 3 ∧
    NoDup Fs ∧
    size (Modules st') = 3.
Proof.
  assert (Forall (λ A, ∃ T, valid_descriptor store0 A T) [Some 1; Some 1; Some 1])
    as HAs by (repeat constructor; exists 0; descriptor 1 0%N).
  split; [reflexivity|]. split; [exact HAs|].
  destruct (MakeIdentityFunctions_all 10 store0 [Some 1; Some 1; Some 1])
    as (Fs & st' & Hrun & Hlen & Hnd & Hsize & _); [reflexivity|exact HAs|].
  exists Fs, st'. split_and!; done.
Defined.

Lemma MakeIdentityFunction_is_identity_witness :
  constructed (TheContext store0) = true ∧
  valid_descriptor store0 (Some 1) 0 ∧
  ∃ F st',
    MakeIdentityFunction 10 (Some 1) store0 = Returns (Some F) st' ∧
    call_Function st' F [4096%Z] = Some (Some 4096%Z).
Proof.
  split; [reflexivity|]. split; [descriptor 1 0%N|].
  destruct (MakeIdentityFunction_is_identity 10 store0 (Some 1) 0)
    as (F & st' & Hrun & Hid); [reflexivity|descriptor 1 0%N|].
  exists F, st'. split; [exact Hrun|apply Hid].
Defined.

Lemma MakeIdentityFunction_identity_stable_witness :
  constructed (TheContext store0) = true ∧
  valid_descriptor store0 (Some 1) 0 ∧
  ∃ F1 st1 F2 st2,
    MakeIdentityFunction 10 (Some 1) store0 = Returns (Some F1) st1 ∧
    valid_descriptor st1 (Some 4) 3 ∧
    MakeIdentityFunction 10 (Some 4) st1 = Returns (Some F2) st2 ∧
    call_Function st2 F1 [4096%Z] = Some (Some 4096%Z) ∧
    call_Function st2 F2 [4096%Z] = Some (Some 4096%Z).
Proof.
  split; [reflexivity|]. split; [descriptor 1 0%N|].
  destruct (MakeIdentityFunction_identity_stable 10 store0 (Some 1) 0)
    as (F1 & s1 & H1 & _ & Hnext); [reflexivity|descriptor 1 0%N|].
  assert (valid_descriptor s1 (Some 4) 3) as Hv2.
  { rewrite (MakeIdentityFunction_run 10 store0 (Some 1) 0) in H1;
      [|reflexivity|descriptor 1 0%N].
    injection H1 as _ <-.
    exists 4, 0%N, (FunctionTy 2 [2] false). split_and!; reflexivity. }
  destruct (Hnext (Some 4) 3 Hv2) as (F2 & s2 & H2 & Hid).
  exists F1, s1, F2, s2. destruct (Hid 4096%Z) as [? ?]. done.
Defined.

Lemma MakeIdentityFunction_untracked_descriptor_witness :
  constructed (TheContext store0) = true ∧
  valid_descriptor store0 (Some 1) 0 ∧
  Types (TheContext store0) !! 1 = Some (PointerTy 0 0) ∧
  0%N ≠ 10%N ∧
  ∃ F st' fo TrackedTy,
    MakeIdentityFunction 10 (Some 1) store0 = Returns (Some F) st' ∧
    Functions st' !! F = Some fo ∧
    Types (TheContext st') !! FTy fo = Some (FunctionTy TrackedTy [TrackedTy] false) ∧
    TrackedTy ≠ 1.
Proof.
  split; [reflexivity|]. split; [descriptor 1 0%N|]. split; [reflexivity|].
  split; [discriminate|].
  apply (MakeIdentityFunction_untracked_descriptor 10 store0 1 0 0);
    [reflexivity|descriptor 1 0%N|reflexivity|discriminate].
Defined.
